(** * SGX driver: ENCLS leaf dispatch (driver/linux/encls.h, driver.h)

    A shallow embedding of the ENCLS wrappers of the Linux SGX driver.
    C [int] values are integers in [-2^31, 2^31); the bit operations of the
    source act on their two's-complement form, which is what [Z.land],
    [Z.lor] and [Z.lnot] compute on [Z]. *)

From Stdlib Require Import ZArith Bool Lia List.
From stdpp Require Import base gmap.

Local Open Scope Z_scope.

(** ** C integer representation *)

Module CInt.

(** An [int] is 32 bits wide. *)
Definition int_min : Z := - 2 ^ 31.
Definition int_max : Z := 2 ^ 31 - 1.

Definition is_int (z : Z) : Prop := int_min <= z <= int_max.

(** Reading a 32-bit register as a signed [int]: the value modulo 2^32,
    taken in the signed range. *)
Definition to_int (z : Z) : Z :=
  let u := z mod 2 ^ 32 in
  if u <? 2 ^ 31 then u else u - 2 ^ 32.

(** Conversion of an [int] to C [bool]: non-zero is true. *)
Definition to_bool (z : Z) : bool := negb (z =? 0).

End CInt.

(** ** encls.h: the fault flag and the failure classifier *)

Module Encls.
Import CInt.

(** enum sgx_encls_leaf *)
Inductive sgx_encls_leaf : Set :=
| ECREATE | EADD | EINIT | EREMOVE | EDGBRD | EDGBWR
| EEXTEND | ELDU | EBLOCK | EPA | EWB | ETRACK.

(** The enumerator values, as written in the enum. *)
Definition leaf_nr (l : sgx_encls_leaf) : Z :=
  match l with
  | ECREATE => 0x00
  | EADD => 0x01
  | EINIT => 0x02
  | EREMOVE => 0x03
  | EDGBRD => 0x04
  | EDGBWR => 0x05
  | EEXTEND => 0x06
  | ELDU => 0x08
  | EBLOCK => 0x09
  | EPA => 0x0A
  | EWB => 0x0B
  | ETRACK => 0x0C
  end.

(** #define ENCLS_FAULT_FLAG 0x40000000 : bit 30. *)
Definition ENCLS_FAULT_FLAG : Z := 0x40000000.

(** #define ENCLS_TRAPNR(r) ((r) & ~ENCLS_FAULT_FLAG) *)
Definition ENCLS_TRAPNR (r : Z) : Z := Z.land r (Z.lnot ENCLS_FAULT_FLAG).

(** The x86 exception vectors of <asm/traps.h>, which encls.h includes and
    which is not part of this tree: #GP is vector 13 and #PF is vector 14
    on every x86 processor. *)
Definition X86_TRAP_GP : Z := 13.
Definition X86_TRAP_PF : Z := 14.

(** [bool fault = ret & ENCLS_FAULT_FLAG;] *)
Definition fault_flagged (ret : Z) : bool :=
  to_bool (Z.land ret ENCLS_FAULT_FLAG).

(** [boot_cpu_has(X86_FEATURE_SGX2) ? X86_TRAP_PF : X86_TRAP_GP], with the
    CPU feature bit as the argument [sgx2]. *)
Definition epcm_trapnr (sgx2 : bool) : Z :=
  if sgx2 then X86_TRAP_PF else X86_TRAP_GP.

(** static inline bool encls_failed(int ret) *)
Definition encls_failed (sgx2 : bool) (ret : Z) : bool :=
  let epcm_trapnr := epcm_trapnr sgx2 in
  let fault := fault_flagged ret in
  (fault && negb (ENCLS_TRAPNR ret =? epcm_trapnr))
  || (negb fault && to_bool ret).

(** The low 30 bits of a value. *)
Definition low30 (r : Z) : Z := Z.land r (Z.ones 30).

End Encls.

(** ** encls.h: the inline-assembly wrappers

    The ENCLS instruction itself is the processor's; the wrappers are modelled
    over an arbitrary instruction semantics [encls], with the enclave page
    cache and the rest of memory (the asm's "memory" clobber) threaded through
    as the state [machine]. *)

Module Dispatch.
Import CInt Encls.

(** The register operands of one asm statement.  RAX always carries the leaf
    number; an input constraint "b", "c" or "d" binds the register, and a
    register without a constraint holds whatever was there before. *)
Record encls_regs : Set := mk_regs {
  rax : Z;
  rbx : option Z;
  rcx : option Z;
  rdx : option Z
}.

(** How the instruction at label 1 leaves the processor: it retires, with the
    leaf's values in EAX and RBX, or it raises exception vector [trapnr] and
    the exception table entry _ASM_EXTABLE_FAULT(1b, 3b) is taken; RBX is
    then whatever it held at the trap. *)
Inductive encls_exit (M : Type) : Type :=
| Retired (eax : Z) (rbx_out : Z) (m : M)
| Trapped (trapnr : Z) (rbx_out : Z) (m : M).

Arguments Retired {M} eax rbx_out m.
Arguments Trapped {M} trapnr rbx_out m.

(** Modelled from the spec: the handler behind _ASM_EXTABLE_FAULT (in
    <asm/asm.h>, not part of this tree) leaves the trap number in EAX before
    resuming at the fixup label, so that the wrappers return the "trapnr with
    ENCLS_FAULT_FLAG set on fault". *)
Definition ex_handler_fault (trapnr : Z) : Z := trapnr.

(** [orl $imm, %eax] *)
Definition orl (imm eax : Z) : Z := Z.lor eax imm.

(** [xor %eax, %eax] *)
Definition xorl (src dst : Z) : Z := Z.lxor dst src.

Section Leaves.

Context {machine : Type}.
Variable encls : encls_regs -> machine -> encls_exit machine.

(** SGX_PAGE_TYPE_VA comes from the architectural definitions of "sgx.h",
    which is not part of this tree. *)
Variable SGX_PAGE_TYPE_VA : Z.

(** __encls_ret_N: the output "=a"(ret) reads EAX as an [int]. *)
Definition __encls_ret_N (r : encls_regs) (m : machine) : Z * machine :=
  match encls r m with
  | Retired eax _ m' => (to_int eax, m')
  | Trapped trapnr _ m' =>
      (to_int (orl ENCLS_FAULT_FLAG (ex_handler_fault trapnr)), m')
  end.

Definition __encls_ret_1 (rax rcx : Z) : machine -> Z * machine :=
  __encls_ret_N (mk_regs rax None (Some rcx) None).

Definition __encls_ret_2 (rax rbx rcx : Z) : machine -> Z * machine :=
  __encls_ret_N (mk_regs rax (Some rbx) (Some rcx) None).

Definition __encls_ret_3 (rax rbx rcx rdx : Z) : machine -> Z * machine :=
  __encls_ret_N (mk_regs rax (Some rbx) (Some rcx) (Some rdx)).

(** __encls_N: the [xor] after the instruction runs only when it retires;
    the result carries [ret] and the output "=b"(rbx_out). *)
Definition __encls_N (r : encls_regs) (m : machine) : Z * Z * machine :=
  match encls r m with
  | Retired eax rbx_out m' => (to_int (xorl eax eax), rbx_out, m')
  | Trapped trapnr rbx_out m' =>
      (to_int (orl ENCLS_FAULT_FLAG (ex_handler_fault trapnr)), rbx_out, m')
  end.

Definition __encls_2 (rax rbx rcx : Z) (m : machine) : Z * machine :=
  let '(ret, ign_rbx_out, m') :=
    __encls_N (mk_regs rax (Some rbx) (Some rcx) None) m in
  (ret, m').

(** __encls_1_1: [data] is an lvalue of the caller; its value before and
    after the statement is passed explicitly. *)
Definition __encls_1_1 (rax data rcx : Z) (m : machine) : Z * Z * machine :=
  let '(ret, rbx_out, m') :=
    __encls_N (mk_regs rax None (Some rcx) None) m in
  let data := if ret =? 0 then rbx_out else data in
  (ret, data, m').

Definition __ecreate (pginfo secs : Z) : machine -> Z * machine :=
  __encls_2 (leaf_nr ECREATE) pginfo secs.

Definition __eextend (secs addr : Z) : machine -> Z * machine :=
  __encls_2 (leaf_nr EEXTEND) secs addr.

Definition __eadd (pginfo addr : Z) : machine -> Z * machine :=
  __encls_2 (leaf_nr EADD) pginfo addr.

Definition __einit (sigstruct einittoken secs : Z) : machine -> Z * machine :=
  __encls_ret_3 (leaf_nr EINIT) sigstruct secs einittoken.

Definition __eremove (addr : Z) : machine -> Z * machine :=
  __encls_ret_1 (leaf_nr EREMOVE) addr.

(** [*data] is read here; its value is the argument [data]. *)
Definition __edbgwr (addr data : Z) : machine -> Z * machine :=
  __encls_2 (leaf_nr EDGBWR) data addr.

(** [*data] is written here; the second component is its value on return. *)
Definition __edbgrd (addr data : Z) : machine -> Z * Z * machine :=
  __encls_1_1 (leaf_nr EDGBRD) data addr.

Definition __etrack (addr : Z) : machine -> Z * machine :=
  __encls_ret_1 (leaf_nr ETRACK) addr.

Definition __eldu (pginfo addr va : Z) : machine -> Z * machine :=
  __encls_ret_3 (leaf_nr ELDU) pginfo addr va.

Definition __eblock (addr : Z) : machine -> Z * machine :=
  __encls_ret_1 (leaf_nr EBLOCK) addr.

Definition __epa (addr : Z) : machine -> Z * machine :=
  let rbx := SGX_PAGE_TYPE_VA in
  __encls_2 (leaf_nr EPA) rbx addr.

Definition __ewb (pginfo addr va : Z) : machine -> Z * machine :=
  __encls_ret_3 (leaf_nr EWB) pginfo addr va.

(** *** The two classes of leaf wrappers

    The status-returning wrappers (built on __encls_ret_N) and the wrappers
    without a status (built on __encls_N), each with its C arguments, the
    registers it loads and the [int] it returns. *)

Inductive status_leaf_call : Set :=
| Call_einit (sigstruct einittoken secs : Z)
| Call_eremove (addr : Z)
| Call_etrack (addr : Z)
| Call_eldu (pginfo addr va : Z)
| Call_eblock (addr : Z)
| Call_ewb (pginfo addr va : Z).

Definition status_leaf_run (c : status_leaf_call) : machine -> Z * machine :=
  match c with
  | Call_einit sigstruct einittoken secs => __einit sigstruct einittoken secs
  | Call_eremove addr => __eremove addr
  | Call_etrack addr => __etrack addr
  | Call_eldu pginfo addr va => __eldu pginfo addr va
  | Call_eblock addr => __eblock addr
  | Call_ewb pginfo addr va => __ewb pginfo addr va
  end.

Definition status_leaf_regs (c : status_leaf_call) : encls_regs :=
  match c with
  | Call_einit sigstruct einittoken secs =>
      mk_regs (leaf_nr EINIT) (Some sigstruct) (Some secs) (Some einittoken)
  | Call_eremove addr => mk_regs (leaf_nr EREMOVE) None (Some addr) None
  | Call_etrack addr => mk_regs (leaf_nr ETRACK) None (Some addr) None
  | Call_eldu pginfo addr va =>
      mk_regs (leaf_nr ELDU) (Some pginfo) (Some addr) (Some va)
  | Call_eblock addr => mk_regs (leaf_nr EBLOCK) None (Some addr) None
  | Call_ewb pginfo addr va =>
      mk_regs (leaf_nr EWB) (Some pginfo) (Some addr) (Some va)
  end.

Inductive nostatus_leaf_call : Set :=
| Call_ecreate (pginfo secs : Z)
| Call_eadd (pginfo addr : Z)
| Call_eextend (secs addr : Z)
| Call_edbgwr (addr data : Z)
| Call_epa (addr : Z)
| Call_edbgrd (addr data : Z).

Definition nostatus_leaf_run (c : nostatus_leaf_call) (m : machine)
  : Z * machine :=
  match c with
  | Call_ecreate pginfo secs => __ecreate pginfo secs m
  | Call_eadd pginfo addr => __eadd pginfo addr m
  | Call_eextend secs addr => __eextend secs addr m
  | Call_edbgwr addr data => __edbgwr addr data m
  | Call_epa addr => __epa addr m
  | Call_edbgrd addr data =>
      let '(ret, _, m') := __edbgrd addr data m in (ret, m')
  end.

Definition nostatus_leaf_regs (c : nostatus_leaf_call) : encls_regs :=
  match c with
  | Call_ecreate pginfo secs =>
      mk_regs (leaf_nr ECREATE) (Some pginfo) (Some secs) None
  | Call_eadd pginfo addr =>
      mk_regs (leaf_nr EADD) (Some pginfo) (Some addr) None
  | Call_eextend secs addr =>
      mk_regs (leaf_nr EEXTEND) (Some secs) (Some addr) None
  | Call_edbgwr addr data =>
      mk_regs (leaf_nr EDGBWR) (Some data) (Some addr) None
  | Call_epa addr =>
      mk_regs (leaf_nr EPA) (Some SGX_PAGE_TYPE_VA) (Some addr) None
  | Call_edbgrd addr data => mk_regs (leaf_nr EDGBRD) None (Some addr) None
  end.

End Leaves.

(** Did the instruction trap? *)
Definition trapped {M : Type} (x : encls_exit M) : bool :=
  match x with
  | Retired _ _ _ => false
  | Trapped _ _ _ => true
  end.

(** The values the processor hands back are in range: the error code a leaf
    leaves in EAX and the number of an exception vector are non-negative and
    below 2^30. *)
Definition exit_in_range {M : Type} (x : encls_exit M) : Prop :=
  match x with
  | Retired eax _ _ => 0 <= eax < 2 ^ 30
  | Trapped trapnr _ _ => 0 <= trapnr < 2 ^ 30
  end.

Definition trap_in_range {M : Type} (x : encls_exit M) : Prop :=
  match x with
  | Retired _ _ _ => True
  | Trapped trapnr _ _ => 0 <= trapnr < 2 ^ 30
  end.

(** A small concrete processor, for examples.  The enclave page cache is a
    list of words addressed from 0.  A leaf whose RCX operand is outside it
    raises #PF, a leaf without an RCX operand raises #GP; inside it EREMOVE
    reports the error code 1 and every other leaf retires with EAX = 0 and
    the addressed word in RBX. *)
Definition toy_encls (r : encls_regs) (m : list Z) : encls_exit (list Z) :=
  match rcx r with
  | Some a =>
      match (if 0 <=? a then nth_error m (Z.to_nat a) else None) with
      | Some w => Retired (if rax r =? leaf_nr EREMOVE then 1 else 0) w m
      | None => Trapped X86_TRAP_PF (default 0 (rbx r)) m
      end
  | None => Trapped X86_TRAP_GP (default 0 (rbx r)) m
  end.

End Dispatch.

(** ** driver.h: the EINIT retry bounds, and the retry policy *)

Module InitRetry.

(** #define SGX_EINIT_SPIN_COUNT 20, SGX_EINIT_SLEEP_COUNT 50,
    SGX_EINIT_SLEEP_TIME 20 *)
Definition SGX_EINIT_SPIN_COUNT : nat := 20.
Definition SGX_EINIT_SLEEP_COUNT : nat := 50.
Definition SGX_EINIT_SLEEP_TIME : Z := 20.

(** What one EINIT attempt reports: success, transient contention with
    concurrent initialization or debugging activity, or any other status. *)
Inductive einit_result : Set :=
| EinitOk
| EinitContended
| EinitFailed (status : Z).

(** What the controller surfaces. *)
Inductive init_outcome : Set :=
| InitOk
| InitFailed (status : Z)
| InitRetriesExhausted.

(** What the controller does, in order. *)
Inductive init_event : Set :=
| Attempt
| Sleep (time : Z).

(** Number of EINIT attempts in a log, and the time slept in it. *)
Fixpoint attempts (log : list init_event) : nat :=
  match log with
  | [] => O
  | Attempt :: log' => S (attempts log')
  | Sleep _ :: log' => attempts log'
  end.

Fixpoint slept (log : list init_event) : Z :=
  match log with
  | [] => 0
  | Attempt :: log' => slept log'
  | Sleep t :: log' => t + slept log'
  end.

Section Policy.

(** The answer of the hardware to the k-th attempt, k = 0, 1, ... *)
Variable einit : nat -> einit_result.

(** Modelled from the spec: the loop that drives sgx_einit is not part of this
    tree (encls.h only declares sgx_einit, driver.h only defines the bounds).
    One phase makes at most [n] attempts, the first of them being attempt
    number [k], each preceded by a sleep when [pause] is given; it stops at
    the first attempt that is not contended. *)
Fixpoint retry_phase (pause : option Z) (n k : nat)
  : list init_event * option einit_result * nat :=
  match n with
  | O => ([], None, k)
  | S n' =>
      let before :=
        match pause with
        | Some t => [Sleep t]
        | None => []
        end in
      match einit k with
      | EinitContended =>
          let '(log, r, k') := retry_phase pause n' (S k) in
          (before ++ Attempt :: log, r, k')
      | r => (before ++ [Attempt], Some r, S k)
      end
  end.

Definition surface (r : option einit_result) : init_outcome :=
  match r with
  | Some EinitOk => InitOk
  | Some (EinitFailed status) => InitFailed status
  | Some EinitContended | None => InitRetriesExhausted
  end.

(** Modelled from the spec: the retry policy of init, "a small bounded number
    of times with busy-spin, then ... a larger bounded number of retries with
    short sleeps between attempts, before surfacing a final failure". *)
Definition init_with_retry : init_outcome * list init_event :=
  match retry_phase None SGX_EINIT_SPIN_COUNT 0 with
  | (log, Some r, _) => (surface (Some r), log)
  | (log, None, k) =>
      let '(log', r, _) :=
        retry_phase (Some SGX_EINIT_SLEEP_TIME) SGX_EINIT_SLEEP_COUNT k in
      (surface r, log ++ log')
  end.

End Policy.

(** The combined budget of attempts. *)
Definition retry_budget : nat := SGX_EINIT_SPIN_COUNT + SGX_EINIT_SLEEP_COUNT.

(** The events of one phase that makes [n] attempts. *)
Fixpoint phase_log (pause : option Z) (n : nat) : list init_event :=
  match n with
  | O => []
  | S n' =>
      match pause with
      | Some t => [Sleep t]
      | None => []
      end ++ Attempt :: phase_log pause n'
  end.

(** [n] attempts, each right after a sleep of [t]. *)
Fixpoint sleeping_attempts (t : Z) (n : nat) : list init_event :=
  match n with
  | O => []
  | S n' => Sleep t :: Attempt :: sleeping_attempts t n'
  end.

(** What the policy is to do when it makes [a] attempts, in the spec's words:
    the first SGX_EINIT_SPIN_COUNT attempts back to back (busy-spin), then
    a sleep of SGX_EINIT_SLEEP_TIME between each attempt and the next. *)
Definition retry_log (a : nat) : list init_event :=
  repeat Attempt (Nat.min a SGX_EINIT_SPIN_COUNT)
  ++ sleeping_attempts SGX_EINIT_SLEEP_TIME (a - SGX_EINIT_SPIN_COUNT).

(** A hardware that is contended for the first [n] attempts and then
    initializes the enclave. *)
Definition contended_for (n : nat) (k : nat) : einit_result :=
  if (k <? n)%nat then EinitContended else EinitOk.

End InitRetry.

(** ** The page lifecycle controller *)

Module Lifecycle.

Inductive page_state : Set :=
| Free | Added | Blocked | Tracked | Evicted.

Inductive op_status : Set :=
| PageNotInState
| EpochNotAcknowledged.

Inductive lifecycle_error : Set :=
| OperationStatus (s : op_status)
| ResourceExhausted
| IntegrityMismatch.

Inductive op_result : Set :=
| Done
| Rejected (e : lifecycle_error).

(** A page: its lifecycle state and the tracking epoch that its most recent
    track advanced to. *)
Record page : Set := mk_page {
  pg_state : page_state;
  pg_epoch : nat
}.

(** The controller: the page metadata, the tracking epoch, the epoch each
    processor has last acknowledged (indexed by processor number), the free
    version slots, and the pages whose write-back has been issued. *)
Record controller : Type := mk_controller {
  pages : gmap nat page;
  epoch : nat;
  acked : list nat;
  free_slots : nat;
  written_back : list nat
}.

Definition state_of (s : controller) (p : nat) : page_state :=
  match pages s !! p with
  | Some pg => pg_state pg
  | None => Free
  end.

Definition set_page (p : nat) (pg : page) (s : controller) : controller :=
  mk_controller (<[p := pg]> (pages s)) (epoch s) (acked s) (free_slots s)
    (written_back s).

Definition initial (ncpus nslots : nat) : controller :=
  mk_controller ∅ 0 (replicate ncpus 0%nat) nslots [].

(** Has every processor acknowledged epoch [e]? *)
Definition acknowledged (s : controller) (e : nat) : bool :=
  forallb (fun a => (e <=? a)%nat) (acked s).

(** Modelled from the spec: the controller that orders the leaves is not part
    of this tree; the operations below follow the transition table of the
    page lifecycle.  Add takes a free page to the added state. *)
Definition add (p : nat) (s : controller) : op_result * controller :=
  match state_of s p with
  | Free => (Done, set_page p (mk_page Added 0) s)
  | _ => (Rejected (OperationStatus PageNotInState), s)
  end.

(** Modelled from the spec: block, whose controller is not part of this tree,
    takes an added page to the blocked state. *)
Definition block (p : nat) (s : controller) : op_result * controller :=
  match pages s !! p with
  | Some (mk_page Added e) => (Done, set_page p (mk_page Blocked e) s)
  | _ => (Rejected (OperationStatus PageNotInState), s)
  end.

(** Modelled from the spec: track, which is not part of this tree, "advances
    the tracking epoch"; the new epoch is recorded with the page. *)
Definition track (p : nat) (s : controller) : op_result * controller :=
  match pages s !! p with
  | Some (mk_page Blocked _) =>
      let e := S (epoch s) in
      (Done,
       mk_controller (<[p := mk_page Tracked e]> (pages s)) e (acked s)
         (free_slots s) (written_back s))
  | _ => (Rejected (OperationStatus PageNotInState), s)
  end.

(** Modelled from the spec: processor [cpu] "has observed (acknowledged) the
    current epoch"; the synchronization itself is not part of this tree. *)
Definition acknowledge (cpu : nat) (s : controller) : controller :=
  mk_controller (pages s) (epoch s) (<[cpu := epoch s]> (acked s))
    (free_slots s) (written_back s).

(** Modelled from the spec: "a full cross-processor synchronization pass",
    not part of this tree: every processor acknowledges. *)
Definition shootdown (s : controller) : controller :=
  mk_controller (pages s) (epoch s) (replicate (length (acked s)) (epoch s))
    (free_slots s) (written_back s).

(** Modelled from the spec: evict, whose controller is not part of this tree,
    has the acknowledgment of the page's epoch by every processor as "an
    explicit precondition"; only then is the write-back issued, and it needs
    "an available version slot". *)
Definition evict (p : nat) (s : controller) : op_result * controller :=
  match pages s !! p with
  | Some (mk_page Tracked e) =>
      if acknowledged s e then
        match free_slots s with
        | O => (Rejected ResourceExhausted, s)
        | S n =>
            (Done,
             mk_controller (<[p := mk_page Evicted e]> (pages s)) (epoch s)
               (acked s) n (written_back s ++ [p]))
        end
      else (Rejected (OperationStatus EpochNotAcknowledged), s)
  | _ => (Rejected (OperationStatus PageNotInState), s)
  end.

(** Modelled from the spec: load, whose controller is not part of this tree,
    "verifies integrity metadata" and gives the version slot back. *)
Definition reload (p : nat) (intact : bool) (s : controller)
  : op_result * controller :=
  match pages s !! p with
  | Some (mk_page Evicted e) =>
      if intact then
        (Done,
         mk_controller (<[p := mk_page Added e]> (pages s)) (epoch s)
           (acked s) (S (free_slots s)) (written_back s))
      else (Rejected IntegrityMismatch, s)
  | _ => (Rejected (OperationStatus PageNotInState), s)
  end.

(** Modelled from the spec: remove, whose controller is not part of this
    tree, frees a resident page. *)
Definition remove (p : nat) (s : controller) : op_result * controller :=
  match pages s !! p with
  | Some (mk_page Added e) | Some (mk_page Blocked e)
  | Some (mk_page Tracked e) =>
      (Done, set_page p (mk_page Free e) s)
  | _ => (Rejected (OperationStatus PageNotInState), s)
  end.

(** The requests a caller can make, and their effect. *)
Inductive request : Set :=
| ReqAdd (p : nat)
| ReqBlock (p : nat)
| ReqTrack (p : nat)
| ReqAcknowledge (cpu : nat)
| ReqShootdown
| ReqEvict (p : nat)
| ReqReload (p : nat) (intact : bool)
| ReqRemove (p : nat).

Definition step (r : request) (s : controller) : op_result * controller :=
  match r with
  | ReqAdd p => add p s
  | ReqBlock p => block p s
  | ReqTrack p => track p s
  | ReqAcknowledge cpu => (Done, acknowledge cpu s)
  | ReqShootdown => (Done, shootdown s)
  | ReqEvict p => evict p s
  | ReqReload p intact => reload p intact s
  | ReqRemove p => remove p s
  end.

Fixpoint run (rs : list request) (s : controller) : controller :=
  match rs with
  | [] => s
  | r :: rs' => run rs' (snd (step r s))
  end.

(** Does processor [cpu] stay without acknowledgment through the requests? *)
Definition no_ack_from (cpu : nat) (rs : list request) : bool :=
  forallb
    (fun r =>
       match r with
       | ReqAcknowledge c => negb (c =? cpu)%nat
       | ReqShootdown => false
       | _ => true
       end) rs.

(** Acknowledgments never run ahead of the epoch. *)
Definition acks_bounded (s : controller) : Prop :=
  Forall (fun a => (a <= epoch s)%nat) (acked s).

(** Processor [cpu] has not acknowledged epoch [e], an epoch the controller
    has reached and which page [p], when it is tracked, is at or beyond. *)
Definition lagging (p cpu e : nat) (s : controller) : Prop :=
  (exists a, acked s !! cpu = Some a /\ (a < e)%nat)
  /\ (e <= epoch s)%nat
  /\ (forall pg, pages s !! p = Some pg -> pg_state pg = Tracked ->
       (e <= pg_epoch pg)%nat).

End Lifecycle.

(** ** A processor at the edge of the encoding *)

Module DispatchEdge.
Import Encls Dispatch.

(** A processor whose leaves always retire, leaving in EAX the value
    0x4000000E: an error code with bit 30 set. *)
Definition flagged_status_encls (r : encls_regs) (m : list Z)
  : encls_exit (list Z) :=
  Retired 0x4000000E 0 m.

End DispatchEdge.

(** * Properties *)

(** ** Bit-level facts about the fault flag *)

Module EnclsFacts.
Import CInt Encls.

Lemma flag_is_bit30 : ENCLS_FAULT_FLAG = 2 ^ 30.
Proof. reflexivity. Qed.

Lemma testbit_flag (n : Z) : 0 <= n -> Z.testbit ENCLS_FAULT_FLAG n = (30 =? n).
Proof.
  intros Hn. rewrite flag_is_bit30. apply Z.pow2_bits_eqb. lia.
Qed.

(** Masking with the flag isolates bit 30. *)
Lemma land_flag (r : Z) :
  Z.land r ENCLS_FAULT_FLAG = if Z.testbit r 30 then ENCLS_FAULT_FLAG else 0.
Proof.
  apply Z.bits_inj'. intros n Hn.
  rewrite Z.land_spec, testbit_flag by assumption.
  destruct (Z.eqb_spec 30 n) as [<- | Hne].
  - destruct (Z.testbit r 30);
      [ now rewrite testbit_flag | now rewrite Z.bits_0 ].
  - rewrite andb_false_r.
    destruct (Z.testbit r 30).
    + rewrite testbit_flag by assumption. symmetry. now apply Z.eqb_neq.
    + now rewrite Z.bits_0.
Qed.

Lemma fault_flagged_bit30 (r : Z) : fault_flagged r = Z.testbit r 30.
Proof.
  unfold fault_flagged, to_bool. rewrite land_flag.
  now destruct (Z.testbit r 30).
Qed.

Lemma testbit_trapnr (r n : Z) :
  0 <= n -> Z.testbit (ENCLS_TRAPNR r) n = Z.testbit r n && negb (30 =? n).
Proof.
  intros Hn. unfold ENCLS_TRAPNR.
  now rewrite Z.land_spec, Z.lnot_spec, testbit_flag.
Qed.

Lemma testbit_or_flag (t n : Z) :
  0 <= n -> Z.testbit (Z.lor t ENCLS_FAULT_FLAG) n = Z.testbit t n || (30 =? n).
Proof.
  intros Hn. now rewrite Z.lor_spec, testbit_flag.
Qed.

(** A value in [0, 2^30) has bit 30 clear. *)
Lemma small_bit30_clear (s : Z) : 0 <= s < 2 ^ 30 -> Z.testbit s 30 = false.
Proof.
  intros [Hlo Hhi].
  destruct (Z.eq_dec s 0) as [-> | Hnz]; [ apply Z.bits_0 | ].
  apply Z.bits_above_log2; [ assumption | ].
  apply Z.log2_lt_pow2; lia.
Qed.

(** A negative value above -2^30 has bit 30 set. *)
Lemma negative_bit30_set (r : Z) : - 2 ^ 30 <= r < 0 -> Z.testbit r 30 = true.
Proof.
  intros Hr.
  replace r with (- (- r)) by lia.
  rewrite Z.bits_opp by lia.
  rewrite small_bit30_clear; [ reflexivity | lia ].
Qed.

(** [to_int] is the identity on the [int] range and always lands in it. *)
Lemma to_int_id (z : Z) : is_int z -> to_int z = z.
Proof.
  unfold is_int, int_min, int_max, to_int. intros Hz.
  destruct (Z.ltb_spec 0 (z + 1)) as [Hpos | Hneg].
  - rewrite Z.mod_small by lia.
    destruct (Z.ltb_spec z (2 ^ 31)); lia.
  - replace (z mod 2 ^ 32) with (z + 2 ^ 32).
    + destruct (Z.ltb_spec (z + 2 ^ 32) (2 ^ 31)); lia.
    + apply Z.mod_unique with (q := -1); lia.
Qed.

Lemma to_int_range (z : Z) : is_int (to_int z).
Proof.
  unfold is_int, int_min, int_max, to_int.
  pose proof (Z.mod_pos_bound z (2 ^ 32) ltac:(lia)) as Hb.
  destruct (Z.ltb_spec (z mod 2 ^ 32) (2 ^ 31)); lia.
Qed.

(** Reading a register as an [int] keeps its low 32 bits. *)
Lemma testbit_to_int (z n : Z) :
  0 <= n < 32 -> Z.testbit (to_int z) n = Z.testbit z n.
Proof.
  intros Hn.
  rewrite <- (Z.mod_pow2_bits_low z 32 n) by lia.
  rewrite <- (Z.mod_pow2_bits_low (to_int z) 32 n) by lia.
  f_equal. unfold to_int.
  destruct (Z.ltb_spec (z mod 2 ^ 32) (2 ^ 31)).
  - now rewrite Z.mod_mod.
  - rewrite Zminus_mod, Z.mod_same, Z.sub_0_r, !Z.mod_mod by lia. reflexivity.
Qed.

Lemma to_int_zero (z : Z) : to_int z = 0 -> z mod 2 ^ 32 = 0.
Proof.
  unfold to_int.
  pose proof (Z.mod_pos_bound z (2 ^ 32) ltac:(lia)) as Hb.
  destruct (Z.ltb_spec (z mod 2 ^ 32) (2 ^ 31)); lia.
Qed.

(** A value is its trap number with its flag bit or-ed back in. *)
Lemma lor_trapnr_flag (r : Z) :
  Z.lor (ENCLS_TRAPNR r) (Z.land r ENCLS_FAULT_FLAG) = r.
Proof.
  apply Z.bits_inj'. intros n Hn.
  rewrite Z.lor_spec, testbit_trapnr, Z.land_spec, testbit_flag by assumption.
  destruct (Z.testbit r n), (30 =? n); reflexivity.
Qed.

Lemma land_trapnr_flag (r : Z) :
  Z.land (ENCLS_TRAPNR r) (Z.land r ENCLS_FAULT_FLAG) = 0.
Proof.
  apply Z.bits_inj'. intros n Hn.
  rewrite Z.land_spec, testbit_trapnr, Z.land_spec, testbit_flag, Z.bits_0
    by assumption.
  destruct (Z.testbit r n), (30 =? n); reflexivity.
Qed.

(** Masking the flag off a value made by or-ing the flag in. *)
Lemma trapnr_lor_flag (t : Z) :
  Z.testbit t 30 = false -> ENCLS_TRAPNR (Z.lor ENCLS_FAULT_FLAG t) = t.
Proof.
  intros Ht. apply Z.bits_inj'. intros n Hn.
  rewrite testbit_trapnr, Z.lor_spec, testbit_flag by assumption.
  destruct (Z.eqb_spec 30 n) as [<- | _].
  - now rewrite Ht.
  - cbn [negb orb]. apply andb_true_r.
Qed.

Lemma flagged_lor (t : Z) : fault_flagged (Z.lor t ENCLS_FAULT_FLAG) = true.
Proof.
  rewrite fault_flagged_bit30, testbit_or_flag by lia. apply orb_true_r.
Qed.

(** With the flag set the trap number is the value less 2^30; without it,
    the value itself. *)
Lemma trapnr_flagged_sub (r : Z) :
  Z.testbit r 30 = true -> ENCLS_TRAPNR r = r - 2 ^ 30.
Proof.
  intros Hb.
  pose proof (lor_trapnr_flag r) as Hl.
  rewrite <- Z.add_nocarry_lor in Hl by apply land_trapnr_flag.
  rewrite land_flag, Hb, flag_is_bit30 in Hl. lia.
Qed.

Lemma trapnr_lor_bit30 (t : Z) :
  Z.testbit t 30 = false -> ENCLS_TRAPNR (Z.lor t 0x40000000) = t.
Proof.
  intros Ht. rewrite Z.lor_comm. now apply trapnr_lor_flag.
Qed.

End EnclsFacts.

(** ** The failure classifier and the fault encoding *)

Module Classifier.
Import CInt Encls EnclsFacts.

Lemma epcm_trapnr_nonneg (sgx2 : bool) : 0 <= epcm_trapnr sgx2.
Proof. destruct sgx2; unfold epcm_trapnr, X86_TRAP_PF, X86_TRAP_GP; lia. Qed.

Lemma flag_test_nonzero (r : Z) :
  Z.land r ENCLS_FAULT_FLAG <> 0 <-> fault_flagged r = true.
Proof.
  unfold fault_flagged, to_bool.
  destruct (Z.eqb_spec (Z.land r ENCLS_FAULT_FLAG) 0); simpl;
    intuition congruence.
Qed.

Lemma flag_test_zero (r : Z) :
  Z.land r ENCLS_FAULT_FLAG = 0 <-> fault_flagged r = false.
Proof.
  unfold fault_flagged, to_bool.
  destruct (Z.eqb_spec (Z.land r ENCLS_FAULT_FLAG) 0); simpl;
    intuition congruence.
Qed.

(** The classifier on a few raw results: a benign #PF on SGX2 hardware, the
    same fault on older hardware, a plain status code, success, and -EFAULT. *)
Example encls_failed_benign_pf :
  encls_failed true (Z.lor X86_TRAP_PF ENCLS_FAULT_FLAG) = false.
Proof. reflexivity. Qed.

Example encls_failed_pf_without_sgx2 :
  encls_failed false (Z.lor X86_TRAP_PF ENCLS_FAULT_FLAG) = true.
Proof. reflexivity. Qed.

Example encls_failed_status : encls_failed true 11 = true.
Proof. reflexivity. Qed.

Example encls_failed_success : encls_failed false 0 = false.
Proof. reflexivity. Qed.

Example encls_failed_efault : encls_failed true (-14) = true.
Proof. reflexivity. Qed.

(** C1: encls_failed(r) holds exactly when bit 30, the fault flag, is set in
    r and the trap number under it, r - 2^30, is not the benign one (#PF, 14,
    with SGX2 and #GP, 13, without), or bit 30 is clear and r is non-zero.
    A trap number with the flag or-ed in passes exactly when it is the benign
    one, and encls_failed(0) is false. *)
Theorem encls_failed_iff (sgx2 : bool) (r : Z) :
  (encls_failed sgx2 r = true <->
     (Z.testbit r 30 = true
      /\ r - 2 ^ 30 <> (if sgx2 then X86_TRAP_PF else X86_TRAP_GP))
     \/ (Z.testbit r 30 = false /\ r <> 0))
  /\ (forall t,
        Z.testbit t 30 = false ->
        (encls_failed sgx2 (Z.lor t 0x40000000) = false
         <-> t = if sgx2 then X86_TRAP_PF else X86_TRAP_GP))
  /\ encls_failed sgx2 0 = false
  /\ ENCLS_FAULT_FLAG = 2 ^ 30
  /\ X86_TRAP_PF = 14
  /\ X86_TRAP_GP = 13.
Proof.
  split; [ | split; [ | split; [ now destruct sgx2 | repeat split ] ] ].
  - unfold encls_failed, epcm_trapnr, to_bool.
    rewrite fault_flagged_bit30.
    destruct (Z.testbit r 30) eqn:Hb; cbn [andb orb negb].
    + rewrite orb_false_r, trapnr_flagged_sub by assumption.
      destruct (Z.eqb_spec (r - 2 ^ 30)
                  (if sgx2 then X86_TRAP_PF else X86_TRAP_GP));
        cbn [negb]; intuition congruence.
    + destruct (Z.eqb_spec r 0); cbn [negb]; intuition congruence.
  - intros t Ht. unfold encls_failed, epcm_trapnr.
    rewrite trapnr_lor_bit30 by assumption.
    change 0x40000000 with ENCLS_FAULT_FLAG. rewrite flagged_lor.
    cbn [andb orb negb]. rewrite orb_false_r, negb_false_iff.
    apply Z.eqb_eq.
Qed.

(** C3: a flagged trap number never equals a status code below 2^30 nor 0,
    and the test of the flag bit tells the two apart. *)
Theorem fault_encoding_no_collision (t s : Z) :
  Z.testbit t 30 = false ->
  0 < s < 2 ^ 30 ->
  Z.lor t ENCLS_FAULT_FLAG <> s
  /\ Z.lor t ENCLS_FAULT_FLAG <> 0
  /\ fault_flagged (Z.lor t ENCLS_FAULT_FLAG) = true
  /\ fault_flagged s = false
  /\ fault_flagged 0 = false.
Proof.
  intros _ Hs.
  assert (Hf : fault_flagged (Z.lor t ENCLS_FAULT_FLAG) = true).
  { rewrite fault_flagged_bit30, testbit_or_flag by lia. apply orb_true_r. }
  assert (Hc : fault_flagged s = false).
  { rewrite fault_flagged_bit30. apply small_bit30_clear. lia. }
  repeat split; try assumption; try reflexivity.
  - intros E. rewrite E in Hf. congruence.
  - intros E. rewrite E in Hf. discriminate Hf.
Qed.

Lemma fault_encoding_no_collision_witness :
  Z.lor 14 ENCLS_FAULT_FLAG <> 7
  /\ Z.lor 14 ENCLS_FAULT_FLAG <> 0
  /\ fault_flagged (Z.lor 14 ENCLS_FAULT_FLAG) = true
  /\ fault_flagged 7 = false
  /\ fault_flagged 0 = false.
Proof.
  apply (fault_encoding_no_collision 14 7); [ reflexivity | lia ].
Defined.

(** C10: masking the flag off a flagged trap number gives the trap number
    back, for every trap number with bit 30 clear. *)
Theorem trapnr_roundtrip (t : Z) :
  Z.testbit t 30 = false ->
  ENCLS_TRAPNR (Z.lor t ENCLS_FAULT_FLAG) = t.
Proof.
  intros Ht. apply Z.bits_inj'. intros n Hn.
  rewrite testbit_trapnr, testbit_or_flag by assumption.
  destruct (Z.eqb_spec 30 n) as [<- | _].
  - rewrite Ht. reflexivity.
  - cbn [negb]. now rewrite orb_false_r, andb_true_r.
Qed.

Lemma trapnr_roundtrip_witness :
  ENCLS_TRAPNR (Z.lor X86_TRAP_PF ENCLS_FAULT_FLAG) = X86_TRAP_PF.
Proof.
  apply (trapnr_roundtrip X86_TRAP_PF). reflexivity.
Defined.

(** C8, as stated, fails: -2^30 + 14 is a negative value of magnitude below
    2^30 whose low 30 bits are the benign trap number of SGX2 hardware, and
    the classifier still reports a failure. *)
Lemma negative_low30_benign_still_failed :
  - 2 ^ 30 < -1073741810 < 0
  /\ fault_flagged (-1073741810) = true
  /\ low30 (-1073741810) = epcm_trapnr true
  /\ encls_failed true (-1073741810) = true
  /\ ~ (encls_failed true (-1073741810) = false
        <-> low30 (-1073741810) = epcm_trapnr true).
Proof.
  repeat split; try reflexivity.
  intros [_ H]. specialize (H eq_refl). discriminate H.
Qed.

(** C8, amended: a negative value of magnitude below 2^30 has bit 30 set and
    takes the fault branch; masking the flag off leaves it negative, so it is
    never the benign trap number and the classifier reports a failure. *)
Theorem negative_ret_always_failed (sgx2 : bool) (r : Z) :
  - 2 ^ 30 < r < 0 ->
  fault_flagged r = true
  /\ ENCLS_TRAPNR r < 0
  /\ ENCLS_TRAPNR r <> epcm_trapnr sgx2
  /\ encls_failed sgx2 r = true.
Proof.
  intros Hr.
  assert (Hf : fault_flagged r = true).
  { rewrite fault_flagged_bit30. apply negative_bit30_set. lia. }
  assert (Hn : ENCLS_TRAPNR r < 0).
  { unfold ENCLS_TRAPNR. apply Z.land_neg. split; [ lia | reflexivity ]. }
  assert (Hne : ENCLS_TRAPNR r <> epcm_trapnr sgx2).
  { pose proof (epcm_trapnr_nonneg sgx2). lia. }
  repeat split; try assumption.
  unfold encls_failed. rewrite Hf. simpl.
  apply Z.eqb_neq in Hne. now rewrite Hne.
Qed.

Lemma negative_ret_always_failed_witness :
  fault_flagged (-14) = true
  /\ ENCLS_TRAPNR (-14) < 0
  /\ ENCLS_TRAPNR (-14) <> epcm_trapnr false
  /\ encls_failed false (-14) = true.
Proof.
  apply (negative_ret_always_failed false (-14)). lia.
Defined.

End Classifier.

(** ** The leaf wrappers *)

Module DispatchFacts.
Import CInt Encls EnclsFacts Dispatch.

Lemma in_range_is_int (z : Z) : 0 <= z < 2 ^ 30 -> is_int z.
Proof. unfold is_int, int_min, int_max. lia. Qed.

(** What the fixup path leaves in [ret]: the flag is always set in it. *)
Lemma fixup_flagged (trapnr : Z) :
  fault_flagged (to_int (orl ENCLS_FAULT_FLAG (ex_handler_fault trapnr)))
  = true.
Proof.
  unfold orl, ex_handler_fault.
  rewrite fault_flagged_bit30, testbit_to_int, testbit_or_flag by lia.
  apply orb_true_r.
Qed.

Lemma fixup_nonzero (trapnr : Z) :
  to_int (orl ENCLS_FAULT_FLAG (ex_handler_fault trapnr)) <> 0.
Proof.
  intros E. pose proof (fixup_flagged trapnr) as H.
  rewrite E in H. discriminate H.
Qed.

(** For a trap number in range the fixup path gives flag | trapnr exactly. *)
Lemma fixup_exact (trapnr : Z) :
  0 <= trapnr < 2 ^ 30 ->
  to_int (orl ENCLS_FAULT_FLAG (ex_handler_fault trapnr))
  = Z.lor ENCLS_FAULT_FLAG trapnr.
Proof.
  intros Ht. unfold orl, ex_handler_fault.
  rewrite (Z.lor_comm ENCLS_FAULT_FLAG).
  apply to_int_id.
  assert (Hd : Z.land trapnr ENCLS_FAULT_FLAG = 0).
  { rewrite land_flag, small_bit30_clear; [ reflexivity | assumption ]. }
  rewrite <- Z.add_nocarry_lor by assumption.
  unfold is_int, int_min, int_max, ENCLS_FAULT_FLAG. lia.
Qed.

Lemma xorl_self (eax : Z) : to_int (xorl eax eax) = 0.
Proof. unfold xorl. now rewrite Z.lxor_nilpotent. Qed.

Section Leaves.

Context {machine : Type}.
Variable encls : encls_regs -> machine -> encls_exit machine.
Variable SGX_PAGE_TYPE_VA : Z.

(** Every status-returning wrapper is __encls_ret_N on its registers. *)
Lemma status_leaf_run_regs (c : status_leaf_call) (m : machine) :
  status_leaf_run encls c m = __encls_ret_N encls (status_leaf_regs c) m.
Proof. destruct c; reflexivity. Qed.

(** Every wrapper without status returns the [ret] of __encls_N on its
    registers. *)
Lemma nostatus_leaf_run_regs (c : nostatus_leaf_call) (m : machine) :
  fst (nostatus_leaf_run encls SGX_PAGE_TYPE_VA c m)
  = fst (fst (__encls_N encls (nostatus_leaf_regs SGX_PAGE_TYPE_VA c) m)).
Proof.
  destruct c;
    unfold nostatus_leaf_run, nostatus_leaf_regs,
      __ecreate, __eadd, __eextend, __edbgwr, __epa, __edbgrd,
      __encls_2, __encls_1_1, __encls_N;
    destruct (encls _ m); reflexivity.
Qed.

(** C4: a status-returning wrapper returns the leaf's error code (0 on
    success, positive on a controlled failure) when the instruction retires
    and flag | trapnr when it faults; the fault flag is set in the result
    exactly when the instruction faulted. *)
Theorem status_leaf_tristate (c : status_leaf_call) (m : machine) :
  exit_in_range (encls (status_leaf_regs c) m) ->
  match encls (status_leaf_regs c) m with
  | Retired eax _ m' =>
      status_leaf_run encls c m = (eax, m') /\ 0 <= eax < 2 ^ 30
  | Trapped trapnr _ m' =>
      status_leaf_run encls c m = (Z.lor ENCLS_FAULT_FLAG trapnr, m')
  end
  /\ fault_flagged (fst (status_leaf_run encls c m))
     = trapped (encls (status_leaf_regs c) m).
Proof.
  rewrite status_leaf_run_regs. unfold __encls_ret_N.
  destruct (encls (status_leaf_regs c) m) as [eax rbx m' | t rbx m'];
    cbn [exit_in_range trapped fst]; intros Hr.
  - rewrite to_int_id by now apply in_range_is_int.
    repeat split; try lia.
    rewrite fault_flagged_bit30. now apply small_bit30_clear.
  - split; [ now rewrite fixup_exact | apply fixup_flagged ].
Qed.

(** C5: a wrapper without status returns exactly 0 when the instruction
    retires and flag | trapnr when it faults, never a positive value without
    the fault flag. *)
Theorem nostatus_leaf_result (c : nostatus_leaf_call) (m : machine) :
  trap_in_range (encls (nostatus_leaf_regs SGX_PAGE_TYPE_VA c) m) ->
  let ret := fst (nostatus_leaf_run encls SGX_PAGE_TYPE_VA c m) in
  match encls (nostatus_leaf_regs SGX_PAGE_TYPE_VA c) m with
  | Retired _ _ _ => ret = 0
  | Trapped trapnr _ _ => ret = Z.lor ENCLS_FAULT_FLAG trapnr
  end
  /\ fault_flagged ret
     = trapped (encls (nostatus_leaf_regs SGX_PAGE_TYPE_VA c) m)
  /\ ~ (0 < ret /\ fault_flagged ret = false).
Proof.
  cbv zeta. rewrite nostatus_leaf_run_regs. unfold __encls_N.
  destruct (encls (nostatus_leaf_regs SGX_PAGE_TYPE_VA c) m)
    as [eax rbx m' | t rbx m']; cbn [trap_in_range trapped fst]; intros Hr.
  - rewrite xorl_self. repeat split. lia.
  - rewrite fixup_flagged. split; [ now apply fixup_exact | ].
    split; [ reflexivity | ]. intros [_ H]. discriminate H.
Qed.

(** C7: when __edbgrd returns 0 the instruction has retired and [*data]
    holds the word the leaf left in RBX. *)
Theorem edbgrd_success_stores (addr data : Z) (m : machine)
    (ret data' : Z) (m' : machine) :
  __edbgrd encls addr data m = (ret, data', m') ->
  ret = 0 ->
  exists eax,
    encls (mk_regs (leaf_nr EDGBRD) None (Some addr) None) m
    = Retired eax data' m'.
Proof.
  unfold __edbgrd, __encls_1_1, __encls_N.
  destruct (encls _ m) as [eax rbx m1 | t rbx m1]; intros E Hret.
  - rewrite xorl_self in E. cbn in E. injection E as _ <- <-. now exists eax.
  - injection E as E1 _ _. exfalso. apply (fixup_nonzero t). congruence.
Qed.

(** C9: when __edbgrd returns a non-zero value, [*data] is what it was. *)
Theorem edbgrd_failure_keeps_data (addr data : Z) (m : machine)
    (ret data' : Z) (m' : machine) :
  __edbgrd encls addr data m = (ret, data', m') ->
  ret <> 0 ->
  data' = data /\ fault_flagged ret = true.
Proof.
  unfold __edbgrd, __encls_1_1, __encls_N.
  destruct (encls _ m) as [eax rbx m1 | t rbx m1]; intros E Hret.
  - rewrite xorl_self in E. cbn in E. injection E as E1 _ _. congruence.
  - injection E as <- E2 _. split; [ | apply fixup_flagged ].
    apply Z.eqb_neq in Hret. now rewrite Hret in E2.
Qed.

End Leaves.

Lemma status_leaf_tristate_witness :
  (status_leaf_run toy_encls (Call_eremove 1) [10; 20; 30] = (1, [10; 20; 30])
   /\ 0 <= 1 < 2 ^ 30)
  /\ fault_flagged
       (fst (status_leaf_run toy_encls (Call_eremove 1) [10; 20; 30]))
     = false.
Proof.
  apply (status_leaf_tristate toy_encls (Call_eremove 1) [10; 20; 30]).
  vm_compute. split; [ discriminate | reflexivity ].
Defined.

Lemma nostatus_leaf_result_witness :
  fst (nostatus_leaf_run toy_encls 3 (Call_epa 7) [10; 20; 30])
  = Z.lor ENCLS_FAULT_FLAG X86_TRAP_PF
  /\ fault_flagged
       (fst (nostatus_leaf_run toy_encls 3 (Call_epa 7) [10; 20; 30]))
     = true
  /\ ~ (0 < fst (nostatus_leaf_run toy_encls 3 (Call_epa 7) [10; 20; 30])
        /\ fault_flagged
             (fst (nostatus_leaf_run toy_encls 3 (Call_epa 7) [10; 20; 30]))
           = false).
Proof.
  apply (nostatus_leaf_result toy_encls 3 (Call_epa 7) [10; 20; 30]).
  vm_compute. split; [ discriminate | reflexivity ].
Defined.

Lemma edbgrd_success_stores_witness :
  exists eax,
    toy_encls (mk_regs (leaf_nr EDGBRD) None (Some 2) None) [10; 20; 30]
    = Retired eax 30 [10; 20; 30].
Proof.
  apply (edbgrd_success_stores toy_encls 2 99 [10; 20; 30] 0 30 [10; 20; 30]);
    reflexivity.
Defined.

Lemma edbgrd_failure_keeps_data_witness :
  99 = 99 /\ fault_flagged (Z.lor ENCLS_FAULT_FLAG X86_TRAP_PF) = true.
Proof.
  apply (edbgrd_failure_keeps_data toy_encls 5 99 [10; 20; 30]
           (Z.lor ENCLS_FAULT_FLAG X86_TRAP_PF) 99 [10; 20; 30]).
  - reflexivity.
  - discriminate.
Defined.

End DispatchFacts.

(** ** The EINIT retry policy *)

Module InitRetryFacts.
Import InitRetry.

Local Open Scope nat_scope.

Lemma attempts_app (a b : list init_event) :
  attempts (a ++ b) = attempts a + attempts b.
Proof. induction a as [ | [ | ? ] a IHa ]; cbn; rewrite ?IHa; lia. Qed.

Lemma slept_app (a b : list init_event) :
  slept (a ++ b) = (slept a + slept b)%Z.
Proof. induction a as [ | [ | ? ] a IHa ]; cbn; rewrite ?IHa; lia. Qed.

Lemma phase_log_spin (n : nat) : phase_log None n = repeat Attempt n.
Proof. induction n as [ | n IH ]; cbn; [ reflexivity | now rewrite IH ]. Qed.

Lemma phase_log_sleep (t : Z) (n : nat) :
  phase_log (Some t) n = sleeping_attempts t n.
Proof. induction n as [ | n IH ]; cbn; [ reflexivity | now rewrite IH ]. Qed.

Lemma attempts_spin (n : nat) : attempts (repeat Attempt n) = n.
Proof. induction n as [ | n IH ]; cbn; [ reflexivity | now rewrite IH ]. Qed.

Lemma slept_spin (n : nat) : slept (repeat Attempt n) = 0%Z.
Proof. induction n as [ | n IH ]; cbn; [ reflexivity | exact IH ]. Qed.

Lemma attempts_sleeping (t : Z) (n : nat) :
  attempts (sleeping_attempts t n) = n.
Proof. induction n as [ | n IH ]; cbn; [ reflexivity | now rewrite IH ]. Qed.

Lemma slept_sleeping (t : Z) (n : nat) :
  slept (sleeping_attempts t n) = (t * Z.of_nat n)%Z.
Proof. induction n as [ | n IH ]; cbn [sleeping_attempts slept]; lia. Qed.

(** The totals of the log of [a] attempts. *)
Lemma retry_log_attempts (a : nat) : attempts (retry_log a) = a.
Proof.
  unfold retry_log. rewrite attempts_app, attempts_spin, attempts_sleeping.
  lia.
Qed.

Lemma retry_log_slept (a : nat) :
  slept (retry_log a)
  = (SGX_EINIT_SLEEP_TIME * Z.of_nat (a - SGX_EINIT_SPIN_COUNT))%Z.
Proof.
  unfold retry_log. rewrite slept_app, slept_spin, slept_sleeping. lia.
Qed.

Section Policy.

Variable einit : nat -> einit_result.

(** A phase that meets contention at every attempt uses all of them. *)
Lemma retry_phase_contended (pause : option Z) (n : nat) :
  forall k,
    (forall j, k <= j < k + n -> einit j = EinitContended) ->
    retry_phase einit pause n k = (phase_log pause n, None, k + n).
Proof.
  induction n as [ | n IH ]; intros k Hc.
  - cbn. now rewrite Nat.add_0_r.
  - cbn [retry_phase phase_log]. rewrite (Hc k) by lia.
    rewrite (IH (S k)) by (intros j Hj; apply Hc; lia).
    now replace (S k + n) with (k + S n) by lia.
Qed.

(** A phase stops at the first attempt that is not contended. *)
Lemma retry_phase_stops (pause : option Z) (r : einit_result) (d : nat) :
  r <> EinitContended ->
  forall n k,
    d < n ->
    (forall j, k <= j < k + d -> einit j = EinitContended) ->
    einit (k + d) = r ->
    retry_phase einit pause n k = (phase_log pause (S d), Some r, S (k + d)).
Proof.
  intros Hr. induction d as [ | d IH ]; intros n k Hd Hc Er.
  - destruct n as [ | n ]; [ lia | ]. rewrite Nat.add_0_r in *.
    cbn [retry_phase phase_log]. rewrite Er.
    destruct r; congruence.
  - destruct n as [ | n ]; [ lia | ].
    cbn [retry_phase]. rewrite (Hc k) by lia.
    rewrite (IH n (S k)).
    + cbn [phase_log]. now replace (S k + d) with (k + S d) by lia.
    + lia.
    + intros j Hj. apply Hc. lia.
    + rewrite <- Er. f_equal. lia.
Qed.

(** What init does after [N] contended attempts followed by a success, with
    [N] below the budget. *)
Lemma init_succeeds_within_budget (N : nat) :
  (forall k, k < N -> einit k = EinitContended) ->
  N < retry_budget ->
  einit N = EinitOk ->
  init_with_retry einit = (InitOk, retry_log (S N)).
Proof.
  intros Hc Hn Eok.
  assert (Hne : EinitOk <> EinitContended) by discriminate.
  unfold retry_budget in Hn. unfold init_with_retry, retry_log.
  revert Hn.
  generalize SGX_EINIT_SPIN_COUNT as spin, SGX_EINIT_SLEEP_COUNT as slp,
    SGX_EINIT_SLEEP_TIME as t.
  intros spin slp t Hn.
  destruct (Nat.lt_ge_cases N spin) as [Hlt | Hge].
  - rewrite (retry_phase_stops None EinitOk N Hne spin 0 Hlt);
      [ | intros j Hj; apply Hc; lia | exact Eok ].
    cbn [surface]. rewrite phase_log_spin.
    replace (S N `min` spin) with (S N) by lia.
    replace (S N - spin) with 0 by lia.
    cbn [sleeping_attempts]. now rewrite app_nil_r.
  - rewrite (retry_phase_contended None spin 0)
      by (intros j Hj; apply Hc; lia).
    cbn [Nat.add].
    rewrite (retry_phase_stops (Some t) EinitOk (N - spin) Hne slp spin);
      [ | lia | intros j Hj; apply Hc; lia | rewrite <- Eok; f_equal; lia ].
    cbn [surface]. rewrite phase_log_spin, phase_log_sleep.
    replace (S N `min` spin) with spin by lia.
    replace (S N - spin) with (S (N - spin)) by lia.
    reflexivity.
Qed.

(** What init does when every attempt of the budget is contended. *)
Lemma init_exhausts_budget (N : nat) :
  (forall k, k < N -> einit k = EinitContended) ->
  retry_budget <= N ->
  init_with_retry einit = (InitRetriesExhausted, retry_log retry_budget).
Proof.
  intros Hc Hn.
  unfold retry_budget in *. unfold init_with_retry, retry_log.
  revert Hn.
  generalize SGX_EINIT_SPIN_COUNT as spin, SGX_EINIT_SLEEP_COUNT as slp,
    SGX_EINIT_SLEEP_TIME as t.
  intros spin slp t Hn.
  rewrite (retry_phase_contended None spin 0)
    by (intros j Hj; apply Hc; lia).
  cbn [Nat.add].
  rewrite (retry_phase_contended (Some t) slp spin)
    by (intros j Hj; apply Hc; lia).
  cbn [surface]. rewrite phase_log_spin, phase_log_sleep.
  replace ((spin + slp) `min` spin) with spin by lia.
  replace (spin + slp - spin) with slp by lia.
  reflexivity.
Qed.

(** C6: the bounds are 20, 50 and 20.  After N contended attempts with N
    below the budget of 20 + 50 attempts, init succeeds at attempt N + 1,
    and what it has done is the first 20 attempts back to back and then a
    sleep of 20 between each attempt and the next; with N at or above the
    budget it does the same up to the 70th attempt, surfaces the exhaustion
    and attempts no more. *)
Theorem init_retry_bound (N : nat) :
  (forall k, k < N -> einit k = EinitContended) ->
  (SGX_EINIT_SPIN_COUNT = 20 /\ SGX_EINIT_SLEEP_COUNT = 50
   /\ SGX_EINIT_SLEEP_TIME = 20%Z)
  /\ (N < retry_budget -> einit N = EinitOk ->
      exists log,
        init_with_retry einit = (InitOk, log)
        /\ log = repeat Attempt (Nat.min (S N) 20)
                 ++ sleeping_attempts 20 (S N - 20)
        /\ attempts log = S N
        /\ attempts log <= retry_budget
        /\ slept log
           = (SGX_EINIT_SLEEP_TIME * Z.of_nat (S N - SGX_EINIT_SPIN_COUNT))%Z)
  /\ (retry_budget <= N ->
      exists log,
        init_with_retry einit = (InitRetriesExhausted, log)
        /\ log = repeat Attempt 20 ++ sleeping_attempts 20 50
        /\ attempts log = retry_budget
        /\ slept log
           = (SGX_EINIT_SLEEP_TIME * Z.of_nat SGX_EINIT_SLEEP_COUNT)%Z).
Proof.
  intros Hc. split; [ repeat split | ]. split.
  - intros Hn Eok. exists (retry_log (S N)).
    rewrite retry_log_attempts, retry_log_slept.
    repeat split; [ now apply init_succeeds_within_budget | lia ].
  - intros Hn. exists (retry_log retry_budget).
    rewrite retry_log_attempts, retry_log_slept.
    repeat split. now apply (init_exhausts_budget N).
Qed.

End Policy.

Lemma init_retry_bound_witness :
  exists log,
    init_with_retry (contended_for 21) = (InitOk, log)
    /\ log = repeat Attempt 20 ++ [Sleep 20; Attempt; Sleep 20; Attempt]
    /\ attempts log = 22
    /\ attempts log <= retry_budget
    /\ slept log = 40%Z.
Proof.
  assert (Hc : forall k, k < 21 -> contended_for 21 k = EinitContended).
  { intros k Hk. unfold contended_for.
    apply Nat.ltb_lt in Hk. now rewrite Hk. }
  destruct (init_retry_bound (contended_for 21) 21 Hc) as (_ & Hok & _).
  apply Hok; [ vm_compute; lia | reflexivity ].
Defined.

End InitRetryFacts.

(** ** The eviction safety invariant *)

Module LifecycleFacts.
Import Lifecycle.

Local Open Scope nat_scope.

Lemma acks_bounded_initial (ncpus nslots : nat) :
  acks_bounded (initial ncpus nslots).
Proof.
  unfold acks_bounded, initial. cbn.
  apply Forall_forall. intros a Ha.
  apply elem_of_replicate in Ha as [-> _]. lia.
Qed.

Lemma length_acked_initial (ncpus nslots : nat) :
  length (acked (initial ncpus nslots)) = ncpus.
Proof. apply length_replicate. Qed.

(** Case analysis on the page a request looks up. *)
Ltac page_cases s p :=
  let E := fresh "Epg" in
  destruct (pages s !! p) as [ [ [ | | | | ] ? ] | ] eqn:E.

Ltac step_cases r s :=
  destruct r as [ q | q | q | c' | | q | q intact | q ];
  cbn [step snd];
  unfold add, block, track, evict, reload, remove, state_of;
  [ page_cases s q | page_cases s q | page_cases s q | | | page_cases s q
  | page_cases s q | page_cases s q ];
  cbn [pg_state snd];
  try match goal with
      | |- context [acknowledged ?s ?e] => destruct (acknowledged s e)
      end;
  try match goal with
      | |- context [match free_slots ?s with O => _ | S _ => _ end] =>
          destruct (free_slots s)
      end;
  try match goal with
      | |- context [if ?b then _ else _] => destruct b
      end;
  cbn [snd].

Lemma acks_bounded_weaken (l : list nat) (e e' : nat) :
  e <= e' -> Forall (fun a => a <= e) l -> Forall (fun a => a <= e') l.
Proof.
  intros He H. eapply Forall_impl; [ exact H | ].
  intros a Ha. cbn in Ha. lia.
Qed.

Lemma acks_bounded_step (r : request) (s : controller) :
  acks_bounded s -> acks_bounded (snd (step r s)).
Proof.
  unfold acks_bounded. intros H.
  step_cases r s; unfold set_page, acknowledge, shootdown; cbn; try assumption.
  - eapply acks_bounded_weaken; [ | eassumption ]. lia.
  - apply Forall_insert; [ assumption | lia ].
  - apply Forall_forall. intros a Ha.
    apply elem_of_replicate in Ha as [-> _]. lia.
Qed.

Lemma acks_bounded_run (rs : list request) :
  forall s, acks_bounded s -> acks_bounded (run rs s).
Proof.
  induction rs as [ | r rs IH ]; intros s H; cbn; [ assumption | ].
  apply IH. now apply acks_bounded_step.
Qed.

Lemma length_acked_step (r : request) (s : controller) :
  length (acked (snd (step r s))) = length (acked s).
Proof.
  step_cases r s; unfold set_page, acknowledge, shootdown; cbn;
    rewrite ?length_insert, ?length_replicate; reflexivity.
Qed.

Lemma length_acked_run (rs : list request) :
  forall s, length (acked (run rs s)) = length (acked s).
Proof.
  induction rs as [ | r rs IH ]; intros s; cbn; [ reflexivity | ].
  now rewrite IH, length_acked_step.
Qed.

(** Right after a track, every processor lags behind the page's epoch. *)
Lemma lagging_after_track (p cpu : nat) (s s1 : controller) :
  acks_bounded s ->
  cpu < length (acked s) ->
  track p s = (Done, s1) ->
  lagging p cpu (S (epoch s)) s1 /\ state_of s1 p = Tracked.
Proof.
  unfold acks_bounded, track, state_of. intros Hb Hc Ht.
  page_cases s p; try discriminate Ht.
  injection Ht as <-. unfold lagging. cbn.
  destruct (lookup_lt_is_Some_2 (acked s) cpu Hc) as [a Ha].
  split; [ | now rewrite lookup_insert_eq ].
  split; [ | split ].
  - exists a. split; [ assumption | ].
    rewrite Forall_forall in Hb.
    assert (a <= epoch s); [ | lia ].
    apply Hb. eapply list_elem_of_lookup_2. eassumption.
  - lia.
  - intros pg. rewrite lookup_insert_eq. intros [= <-]. cbn. lia.
Qed.

(** A request that is not an acknowledgment of the processor keeps it
    lagging. *)
Lemma lagging_step (p cpu e : nat) (r : request) (s : controller) :
  no_ack_from cpu [r] = true ->
  lagging p cpu e s -> lagging p cpu e (snd (step r s)).
Proof.
  unfold lagging. intros Hr ((a & Ha & Hlt) & He & Hpg).
  step_cases r s; unfold set_page, acknowledge, shootdown; cbn in *;
    try discriminate Hr;
    (split; [ | split ]); try assumption; try lia; eauto;
    try (intros pg; destruct (decide (q = p)) as [-> | Hne];
         [ rewrite lookup_insert_eq; intros [= <-]; cbn;
           first [ discriminate | intros _; eauto; lia ]
         | rewrite lookup_insert_ne by assumption; apply Hpg ]).
  - exists a. split; [ | assumption ].
    rewrite list_lookup_insert_ne; [ assumption | ].
    rewrite andb_true_r in Hr. apply negb_true_iff, Nat.eqb_neq in Hr. exact Hr.
Qed.

Lemma lagging_run (p cpu e : nat) (rs : list request) :
  forall s,
    no_ack_from cpu rs = true ->
    lagging p cpu e s -> lagging p cpu e (run rs s).
Proof.
  induction rs as [ | r rs IH ]; intros s Hr Hl; cbn; [ assumption | ].
  cbn in Hr. apply andb_true_iff in Hr as [Hr1 Hr2].
  apply IH; [ exact Hr2 | ].
  apply lagging_step; [ cbn; now rewrite Hr1 | assumption ].
Qed.

Lemma lagging_not_acknowledged (p cpu e e' : nat) (s : controller) :
  lagging p cpu e s -> e <= e' -> acknowledged s e' = false.
Proof.
  intros ((a & Ha & Hlt) & _ & _) He.
  unfold acknowledged. apply not_true_is_false. intros Hall.
  rewrite forallb_forall in Hall.
  assert (Hin : In a (acked s)).
  { apply list_elem_of_In. eapply list_elem_of_lookup_2. eassumption. }
  apply Hall, Nat.leb_le in Hin. lia.
Qed.

(** While a processor lags, evict of the page is rejected and changes
    nothing. *)
Lemma lagging_evict (p cpu e : nat) (s : controller) :
  lagging p cpu e s ->
  exists err,
    evict p s = (Rejected err, s)
    /\ (state_of s p = Tracked ->
        err = OperationStatus EpochNotAcknowledged).
Proof.
  intros Hl. pose proof Hl as (_ & _ & Hpg).
  unfold evict, state_of.
  page_cases s p; cbn;
    try (eexists; split; [ reflexivity | discriminate ]).
  rewrite (lagging_not_acknowledged p cpu e _ s Hl).
  - eexists. split; reflexivity.
  - apply (Hpg _ eq_refl eq_refl).
Qed.

(** An evict that is carried out had every acknowledgment. *)
Lemma evict_done_acknowledged (p : nat) (s s' : controller) :
  evict p s = (Done, s') ->
  exists e,
    pages s !! p = Some (mk_page Tracked e)
    /\ Forall (fun a => e <= a) (acked s)
    /\ written_back s' = written_back s ++ [p].
Proof.
  unfold evict.
  destruct (pages s !! p) as [ [ [ | | | | ] e ] | ] eqn:Epg;
    try discriminate.
  destruct (acknowledged s e) eqn:Ea; [ | discriminate ].
  destruct (free_slots s); [ discriminate | ].
  intros [= <-]. exists e. repeat split.
  apply Forall_forall. intros a Hin.
  unfold acknowledged in Ea. rewrite forallb_forall in Ea.
  apply Nat.leb_le, Ea. now apply list_elem_of_In.
Qed.

(** C2: from the initial controller, after any requests, once a page is
    tracked and as long as some processor has not acknowledged since, evict
    of the page is rejected and changes nothing: no write-back is issued, and
    a page in the tracked state stays there, with the status that tells that
    the epoch is not acknowledged. *)
Theorem evict_rejected_until_acknowledged
    (ncpus nslots : nat) (before after : list request) (p cpu : nat)
    (s1 : controller) :
  cpu < ncpus ->
  track p (run before (initial ncpus nslots)) = (Done, s1) ->
  no_ack_from cpu after = true ->
  exists err,
    evict p (run after s1) = (Rejected err, run after s1)
    /\ written_back (snd (evict p (run after s1)))
       = written_back (run after s1)
    /\ (state_of (run after s1) p = Tracked ->
        err = OperationStatus EpochNotAcknowledged
        /\ state_of (snd (evict p (run after s1))) p = Tracked).
Proof.
  intros Hc Ht Hna.
  assert (Hl : lagging p cpu
                 (S (epoch (run before (initial ncpus nslots)))) s1).
  { apply (lagging_after_track p cpu (run before (initial ncpus nslots)) s1).
    - apply acks_bounded_run, acks_bounded_initial.
    - now rewrite length_acked_run, length_acked_initial.
    - exact Ht. }
  destruct (lagging_evict p cpu _ _ (lagging_run _ _ _ after _ Hna Hl))
    as (err & E & Herr).
  exists err. rewrite E. cbn [snd]. repeat split; auto.
Qed.

Lemma evict_rejected_until_acknowledged_witness :
  exists err,
    evict 7 (run [ReqAcknowledge 0] (run [ReqAdd 7; ReqBlock 7; ReqTrack 7]
                                       (initial 2 4)))
    = (Rejected err,
       run [ReqAcknowledge 0] (run [ReqAdd 7; ReqBlock 7; ReqTrack 7]
                                 (initial 2 4)))
    /\ written_back
         (snd (evict 7 (run [ReqAcknowledge 0]
                          (run [ReqAdd 7; ReqBlock 7; ReqTrack 7]
                             (initial 2 4)))))
       = written_back
           (run [ReqAcknowledge 0] (run [ReqAdd 7; ReqBlock 7; ReqTrack 7]
                                      (initial 2 4)))
    /\ (state_of (run [ReqAcknowledge 0]
                    (run [ReqAdd 7; ReqBlock 7; ReqTrack 7] (initial 2 4))) 7
        = Tracked ->
        err = OperationStatus EpochNotAcknowledged
        /\ state_of
             (snd (evict 7 (run [ReqAcknowledge 0]
                              (run [ReqAdd 7; ReqBlock 7; ReqTrack 7]
                                 (initial 2 4))))) 7
           = Tracked).
Proof.
  apply (evict_rejected_until_acknowledged 2 4 [ReqAdd 7; ReqBlock 7]
           [ReqAcknowledge 0] 7 1).
  - lia.
  - reflexivity.
  - reflexivity.
Defined.

End LifecycleFacts.

(** ** More on the classifier and the trap number *)

Module ClassifierMore.
Import CInt Encls EnclsFacts.

Lemma trapnr_unflagged (r : Z) : fault_flagged (ENCLS_TRAPNR r) = false.
Proof.
  rewrite fault_flagged_bit30, testbit_trapnr by lia. apply andb_false_r.
Qed.

(** A flagged value is determined by its trap number. *)
Lemma flagged_of_trapnr (r t : Z) :
  fault_flagged r = true -> ENCLS_TRAPNR r = t ->
  r = Z.lor t ENCLS_FAULT_FLAG.
Proof.
  intros Hf <-. rewrite fault_flagged_bit30 in Hf.
  rewrite <- (lor_trapnr_flag r) at 1. now rewrite land_flag, Hf.
Qed.

(** X1: the classifier lets exactly two raw values pass, whatever their
    sign or size: 0 and the benign trap number with the fault flag. *)
Theorem encls_not_failed_iff (sgx2 : bool) (r : Z) :
  encls_failed sgx2 r = false
  <-> r = 0 \/ r = Z.lor (epcm_trapnr sgx2) ENCLS_FAULT_FLAG.
Proof.
  split.
  - unfold encls_failed, to_bool.
    destruct (fault_flagged r) eqn:Hf; cbn [andb orb negb].
    + rewrite orb_false_r. intros H. right.
      apply flagged_of_trapnr; [ assumption | ].
      apply negb_false_iff in H. now apply Z.eqb_eq.
    + intros H. left. apply negb_false_iff in H. now apply Z.eqb_eq.
  - intros [-> | ->]; now destruct sgx2.
Qed.

(** X2: the hardware generation changes the verdict on exactly two raw
    values, the #GP and the #PF trap numbers with the fault flag. *)
Theorem encls_failed_generation (r : Z) :
  encls_failed true r <> encls_failed false r
  <-> r = Z.lor X86_TRAP_GP ENCLS_FAULT_FLAG
      \/ r = Z.lor X86_TRAP_PF ENCLS_FAULT_FLAG.
Proof.
  split.
  - unfold encls_failed, epcm_trapnr.
    destruct (fault_flagged r) eqn:Hf; cbn [andb orb negb];
      [ | intros H; now contradiction H ].
    rewrite !orb_false_r. intros H.
    destruct (Z.eqb_spec (ENCLS_TRAPNR r) X86_TRAP_PF) as [Epf | _].
    + right. now apply flagged_of_trapnr.
    + destruct (Z.eqb_spec (ENCLS_TRAPNR r) X86_TRAP_GP) as [Egp | _].
      * left. now apply flagged_of_trapnr.
      * now contradiction H.
  - intros [-> | ->]; discriminate.
Qed.

(** X3: ENCLS_TRAPNR splits a value without loss: the value is the sum of
    its trap number and its flag bit, the trap number carries no flag, and
    masking again changes nothing. *)
Theorem trapnr_decomposition (r : Z) :
  r = ENCLS_TRAPNR r + Z.land r ENCLS_FAULT_FLAG
  /\ (if fault_flagged r
      then ENCLS_TRAPNR r = r - ENCLS_FAULT_FLAG
      else ENCLS_TRAPNR r = r)
  /\ fault_flagged (ENCLS_TRAPNR r) = false
  /\ ENCLS_TRAPNR (ENCLS_TRAPNR r) = ENCLS_TRAPNR r.
Proof.
  assert (Hsum : r = ENCLS_TRAPNR r + Z.land r ENCLS_FAULT_FLAG).
  { rewrite Z.add_nocarry_lor by apply land_trapnr_flag.
    symmetry. apply lor_trapnr_flag. }
  split; [ exact Hsum | ]. split; [ | split ].
  - rewrite fault_flagged_bit30. rewrite land_flag in Hsum.
    destruct (Z.testbit r 30); lia.
  - apply trapnr_unflagged.
  - pose proof (trapnr_unflagged r) as Hu.
    rewrite fault_flagged_bit30 in Hu.
    apply Z.bits_inj'. intros n Hn.
    rewrite (testbit_trapnr (ENCLS_TRAPNR r)) by assumption.
    destruct (Z.eqb_spec 30 n) as [<- | _].
    + rewrite Hu. reflexivity.
    + apply andb_true_r.
Qed.

End ClassifierMore.

(** ** The leaf numbers *)

Module LeafNumbers.
Import Encls Dispatch.

(** X9: the twelve enumerators have twelve different numbers, all from 0 to
    0x0C; every one of them is issued by a wrapper, and no leaf is issued
    both by a status-returning wrapper and by one without status. *)
Theorem leaf_numbers_partition (SGX_PAGE_TYPE_VA : Z) :
  (forall l1 l2, leaf_nr l1 = leaf_nr l2 -> l1 = l2)
  /\ (forall l, 0 <= leaf_nr l <= 0x0C)
  /\ (forall l,
        (exists c, rax (status_leaf_regs c) = leaf_nr l)
        \/ (exists c,
              rax (nostatus_leaf_regs SGX_PAGE_TYPE_VA c) = leaf_nr l))
  /\ (forall c c',
        rax (status_leaf_regs c)
        <> rax (nostatus_leaf_regs SGX_PAGE_TYPE_VA c')).
Proof.
  repeat split.
  - intros [] []; cbn; intros H; try reflexivity; discriminate H.
  - destruct l; cbn; lia.
  - destruct l; cbn; lia.
  - intros [].
    + right. now exists (Call_ecreate 0 0).
    + right. now exists (Call_eadd 0 0).
    + left. now exists (Call_einit 0 0 0).
    + left. now exists (Call_eremove 0).
    + right. now exists (Call_edbgrd 0 0).
    + right. now exists (Call_edbgwr 0 0).
    + right. now exists (Call_eextend 0 0).
    + left. now exists (Call_eldu 0 0 0).
    + left. now exists (Call_eblock 0).
    + right. now exists (Call_epa 0).
    + left. now exists (Call_ewb 0 0 0).
    + left. now exists (Call_etrack 0).
  - intros [] []; cbn; discriminate.
Qed.

End LeafNumbers.

(** ** The wrappers under the classifier *)

Module DispatchMore.
Import CInt Encls EnclsFacts Dispatch DispatchFacts ClassifierMore.

(** The classifier on an error code without the flag, and on a flagged trap
    number. *)
Lemma encls_failed_unflagged (sgx2 : bool) (s : Z) :
  fault_flagged s = false -> encls_failed sgx2 s = negb (s =? 0).
Proof. unfold encls_failed, to_bool. now intros ->. Qed.

Lemma encls_failed_flagged (sgx2 : bool) (t : Z) :
  Z.testbit t 30 = false ->
  encls_failed sgx2 (Z.lor ENCLS_FAULT_FLAG t)
  = negb (t =? epcm_trapnr sgx2).
Proof.
  intros Ht. unfold encls_failed.
  rewrite trapnr_lor_flag by assumption.
  rewrite (Z.lor_comm ENCLS_FAULT_FLAG), flagged_lor. cbn [andb negb].
  apply orb_false_r.
Qed.

Lemma lor_flag_sum (t : Z) :
  0 <= t < 2 ^ 30 -> Z.lor ENCLS_FAULT_FLAG t = ENCLS_FAULT_FLAG + t.
Proof.
  intros Ht. symmetry. apply Z.add_nocarry_lor.
  rewrite Z.land_comm, land_flag, small_bit30_clear; [ reflexivity | exact Ht ].
Qed.

Section Leaves.

Context {machine : Type}.
Variable encls : encls_regs -> machine -> encls_exit machine.
Variable SGX_PAGE_TYPE_VA : Z.

(** X4: on the result of a status-returning wrapper the classifier reports
    a failure exactly when the leaf retired with a non-zero error code or
    faulted with a trap other than the benign one. *)
Theorem status_leaf_failed (sgx2 : bool) (c : status_leaf_call) (m : machine) :
  exit_in_range (encls (status_leaf_regs c) m) ->
  encls_failed sgx2 (fst (status_leaf_run encls c m))
  = match encls (status_leaf_regs c) m with
    | Retired eax _ _ => negb (eax =? 0)
    | Trapped trapnr _ _ => negb (trapnr =? epcm_trapnr sgx2)
    end.
Proof.
  rewrite status_leaf_run_regs. unfold __encls_ret_N.
  destruct (encls (status_leaf_regs c) m) as [eax rbx m' | t rbx m'];
    cbn [exit_in_range fst]; intros Hr.
  - rewrite to_int_id by now apply in_range_is_int.
    apply encls_failed_unflagged.
    rewrite fault_flagged_bit30. now apply small_bit30_clear.
  - rewrite fixup_exact by assumption.
    apply encls_failed_flagged. now apply small_bit30_clear.
Qed.

(** X5: on the result of a wrapper without status the classifier reports a
    failure exactly when the leaf faulted with a trap other than the benign
    one; a leaf that retired is never reported. *)
Theorem nostatus_leaf_failed (sgx2 : bool) (c : nostatus_leaf_call)
    (m : machine) :
  trap_in_range (encls (nostatus_leaf_regs SGX_PAGE_TYPE_VA c) m) ->
  encls_failed sgx2 (fst (nostatus_leaf_run encls SGX_PAGE_TYPE_VA c m))
  = match encls (nostatus_leaf_regs SGX_PAGE_TYPE_VA c) m with
    | Retired _ _ _ => false
    | Trapped trapnr _ _ => negb (trapnr =? epcm_trapnr sgx2)
    end.
Proof.
  rewrite nostatus_leaf_run_regs. unfold __encls_N.
  destruct (encls (nostatus_leaf_regs SGX_PAGE_TYPE_VA c) m)
    as [eax rbx m' | t rbx m']; cbn [trap_in_range fst]; intros Hr.
  - rewrite xorl_self. now destruct sgx2.
  - rewrite fixup_exact by assumption.
    apply encls_failed_flagged. now apply small_bit30_clear.
Qed.

(** X6: when the instruction faults, ENCLS_TRAPNR of what either family of
    wrappers returns is the number of the trap. *)
Theorem fault_result_decodes (r : encls_regs) (m : machine)
    (trapnr rbx_out : Z) (m' : machine) :
  encls r m = Trapped trapnr rbx_out m' ->
  0 <= trapnr < 2 ^ 30 ->
  ENCLS_TRAPNR (fst (__encls_ret_N encls r m)) = trapnr
  /\ ENCLS_TRAPNR (fst (fst (__encls_N encls r m))) = trapnr.
Proof.
  intros E Ht. unfold __encls_ret_N, __encls_N. rewrite E. cbn [fst].
  rewrite fixup_exact by assumption.
  split; apply trapnr_lor_flag; now apply small_bit30_clear.
Qed.

(** X7: the results are ordered by kind: an error code of a leaf that
    retired lies in [0, 2^30), the result of a fault in [2^30, 2^31); no
    wrapper returns a negative value. *)
Theorem leaf_results_ordered (r : encls_regs) (m : machine) :
  exit_in_range (encls r m) ->
  (if trapped (encls r m)
   then ENCLS_FAULT_FLAG <= fst (__encls_ret_N encls r m) < 2 ^ 31
   else 0 <= fst (__encls_ret_N encls r m) < ENCLS_FAULT_FLAG)
  /\ (if trapped (encls r m)
      then ENCLS_FAULT_FLAG <= fst (fst (__encls_N encls r m)) < 2 ^ 31
      else fst (fst (__encls_N encls r m)) = 0).
Proof.
  unfold __encls_ret_N, __encls_N.
  destruct (encls r m) as [eax rbx m' | t rbx m'];
    cbn [exit_in_range trapped fst]; intros Hr.
  - rewrite to_int_id by now apply in_range_is_int.
    rewrite xorl_self. unfold ENCLS_FAULT_FLAG. split; [ lia | reflexivity ].
  - rewrite fixup_exact, lor_flag_sum by assumption.
    unfold ENCLS_FAULT_FLAG. lia.
Qed.

End Leaves.

(** X8: outside that range the status-returning wrappers cannot tell: when
    a leaf retires with bit 30 set in EAX, the wrapper returns what it
    returns for a fault with trap number ENCLS_TRAPNR(EAX), fault flag
    included. *)
Theorem retired_flagged_status_reads_as_fault {machine : Type}
    (encls encls' : encls_regs -> machine -> encls_exit machine)
    (r : encls_regs) (m : machine) (eax rbx_out rbx_out' : Z)
    (m' : machine) :
  encls r m = Retired eax rbx_out m' ->
  0 <= eax < 2 ^ 31 ->
  Z.testbit eax 30 = true ->
  encls' r m = Trapped (ENCLS_TRAPNR eax) rbx_out' m' ->
  __encls_ret_N encls r m = __encls_ret_N encls' r m
  /\ fault_flagged (fst (__encls_ret_N encls r m)) = true.
Proof.
  intros E Hr Hb E'. unfold __encls_ret_N. rewrite E, E'. cbn [fst].
  assert (Hid : to_int eax = eax).
  { apply to_int_id. unfold is_int, int_min, int_max. lia. }
  split.
  - unfold orl, ex_handler_fault. f_equal.
    rewrite <- (lor_trapnr_flag eax) at 1. now rewrite land_flag, Hb.
  - now rewrite Hid, fault_flagged_bit30.
Qed.

Lemma status_leaf_failed_witness :
  encls_failed true
    (fst (status_leaf_run toy_encls (Call_eblock 9) [10; 20; 30]))
  = false.
Proof.
  apply (status_leaf_failed toy_encls true (Call_eblock 9) [10; 20; 30]).
  vm_compute. split; [ discriminate | reflexivity ].
Defined.

Lemma nostatus_leaf_failed_witness :
  encls_failed false
    (fst (nostatus_leaf_run toy_encls 3 (Call_eadd 1 9) [10; 20; 30]))
  = true.
Proof.
  apply (nostatus_leaf_failed toy_encls 3 false (Call_eadd 1 9) [10; 20; 30]).
  vm_compute. split; [ discriminate | reflexivity ].
Defined.

Lemma fault_result_decodes_witness :
  ENCLS_TRAPNR
    (fst (__encls_ret_N toy_encls (mk_regs 3 None None None) [10; 20; 30]))
  = X86_TRAP_GP
  /\ ENCLS_TRAPNR
       (fst (fst (__encls_N toy_encls (mk_regs 3 None None None)
                    [10; 20; 30])))
     = X86_TRAP_GP.
Proof.
  apply (fault_result_decodes toy_encls (mk_regs 3 None None None)
           [10; 20; 30] X86_TRAP_GP 0 [10; 20; 30]).
  - reflexivity.
  - unfold X86_TRAP_GP. lia.
Defined.

Lemma leaf_results_ordered_witness :
  0 <= fst (__encls_ret_N toy_encls (mk_regs 3 None (Some 1) None)
              [10; 20; 30]) < ENCLS_FAULT_FLAG
  /\ fst (fst (__encls_N toy_encls (mk_regs 3 None (Some 1) None)
                 [10; 20; 30])) = 0.
Proof.
  apply (leaf_results_ordered toy_encls (mk_regs 3 None (Some 1) None)
           [10; 20; 30]).
  vm_compute. split; [ discriminate | reflexivity ].
Defined.

Lemma retired_flagged_status_reads_as_fault_witness :
  __encls_ret_N DispatchEdge.flagged_status_encls
    (mk_regs 3 None (Some 9) None) [10; 20; 30]
  = __encls_ret_N toy_encls (mk_regs 3 None (Some 9) None) [10; 20; 30]
  /\ fault_flagged
       (fst (__encls_ret_N DispatchEdge.flagged_status_encls
               (mk_regs 3 None (Some 9) None) [10; 20; 30]))
     = true.
Proof.
  apply (retired_flagged_status_reads_as_fault
           DispatchEdge.flagged_status_encls toy_encls
           (mk_regs 3 None (Some 9) None) [10; 20; 30]
           0x4000000E 0 0 [10; 20; 30]).
  - reflexivity.
  - lia.
  - reflexivity.
  - reflexivity.
Defined.

End DispatchMore.
